(* Verification model of src/controllers/files.rs (d-dox-server):
   the three file routes over an S3-compatible object store, and the
   process-wide memoised storage configuration. *)

From Stdlib Require Import String Ascii List Arith Lia.
From stdpp Require Import base gmap strings list fin_maps sorting.

Import ListNotations.
Set Warnings "-register-all".
Open Scope string_scope.

(* ------------------------------------------------------------------ *)
(* Data                                                               *)
(* ------------------------------------------------------------------ *)

(** A byte payload ([bytes::Bytes] / [Vec<u8>]). *)
Definition bytes := list Byte.byte.

(** [loco_rs::Error], restricted to the variants whose HTTP mapping
    matters here; the file only ever builds [Error::Message]. *)
Inductive Error :=
| Message (msg : string)
| NotFound
| BadRequest (msg : string).

(** [loco_rs::Result<T>] = [Result<T, loco_rs::Error>]. *)
Inductive Result (A : Type) :=
| Ok (a : A)
| Err (e : Error).
Arguments Ok {A} a.
Arguments Err {A} e.

(** [FileInfo { name, size }]. *)
Record FileInfo := mkFileInfo { name : string; size : nat }.

(** The handlers' responses: [Json({"uploaded": [...]})], a raw body
    with a status code, and [Json(Vec<FileInfo>)]. *)
Inductive Response :=
| UploadedJson (uploaded : list string)
| RawBody (status : nat) (body : bytes)
| FilesJson (files : list FileInfo).

(** Status code of an error response: [impl IntoResponse for loco_rs::Error]
    (the framework's): [NotFound] is 404, [BadRequest] is 400, every other
    variant, [Message] among them, is 500 Internal Server Error. *)
Definition error_status (e : Error) : nat :=
  match e with
  | NotFound => 404
  | BadRequest _ => 400
  | Message _ => 500
  end.

(* ------------------------------------------------------------------ *)
(* object_store::path::Path::from(String)                             *)
(* ------------------------------------------------------------------ *)

(** [value.split('/')] as Rust's [str::split]: always at least one piece. *)
Fixpoint split_delim (s : string) : list string :=
  match s with
  | EmptyString => [""]
  | String c s' =>
      let parts := split_delim s' in
      if Ascii.eqb c "/"%char then "" :: parts
      else match parts with
           | p :: ps => String c p :: ps
           | [] => [String c ""]
           end
  end.

(** The [INVALID] set of [object_store::path::parts]: the ASCII controls,
    the delimiter, and the characters AWS and GCS advise against; bytes
    of non-ASCII characters are always encoded by [utf8_percent_encode]. *)
Definition invalid_byte (c : ascii) : bool :=
  let n := nat_of_ascii c in
  Nat.ltb n 32 || Nat.eqb n 127 || Nat.leb 128 n ||
  existsb (Nat.eqb n)
    [47 (* / *); 92 (* \ *); 123 (* { *); 94 (* ^ *); 125 (* } *);
     37 (* % *); 96 (* ` *); 93 (* ] *); 34 (* double quote *);
     62 (* > *); 91 (* [ *); 126 (* ~ *); 60 (* < *); 35 (* # *);
     124 (* | *); 13; 10; 42 (* * *); 63 (* ? *)].

Definition hex_digit (n : nat) : ascii :=
  match String.get n "0123456789ABCDEF" with
  | Some c => c
  | None => "0"%char
  end.

(** [percent_encode(part, INVALID)]: "%XX" with upper-case hex digits. *)
Fixpoint percent_encode (s : string) : string :=
  match s with
  | EmptyString => EmptyString
  | String c s' =>
      if invalid_byte c then
        let n := nat_of_ascii c in
        String "%" (String (hex_digit (Nat.div n 16))
                      (String (hex_digit (Nat.modulo n 16)) (percent_encode s')))
      else String c (percent_encode s')
  end.

(** [impl From<&str> for PathPart]. *)
Definition path_part (v : string) : string :=
  if String.eqb v "." then "%2E"
  else if String.eqb v ".." then "%2E%2E"
  else percent_encode v.

Fixpoint join_delim (ps : list string) : string :=
  match ps with
  | [] => ""
  | [p] => p
  | p :: ps' => p ++ "/" ++ join_delim ps'
  end.

(** [impl From<String> for Path]: [Path::from_iter(value.split('/'))],
    which encodes every part, drops the empty ones and joins the rest
    with '/'.  The result is the raw object key. *)
Definition object_path (file_name : string) : string :=
  join_delim (List.filter (fun p => negb (String.eqb p ""))
                (map path_part (split_delim file_name))).

(** [Path::filename]: [None] for the empty path, otherwise the last
    '/'-separated segment ([self.raw.rsplit('/').next()]). *)
Definition filename (location : string) : option string :=
  if String.eqb location "" then None
  else last (split_delim location).

(* ------------------------------------------------------------------ *)
(* The object store and the multipart body                            *)
(* ------------------------------------------------------------------ *)

(** The bucket: object key to object contents.  [put] replaces the
    object under its key (S3 has no per-key uniqueness check). *)
Abbreviation store := (gmap string bytes).

(** [object_store::ObjectMeta], the items of [store.list(None)]. *)
Record ObjectMeta := mkObjectMeta { location : string; meta_size : nat }.

(** Shortened text of [object_store::Error::NotFound], without the
    ": {source}" suffix; used only by [get_file] below.  The full text is
    [not_found_display]. *)
Definition not_found_msg (key : string) : string :=
  "Object at location " ++ key ++ " not found".

(** An [axum::extract::multipart::Field]: its optional file name and the
    outcome of reading its body with [field.bytes()] (an error text on a
    failed read). *)
Record Field := mkField {
  field_file_name : option string;
  field_bytes : bytes + string
}.

(** One step of [multipart.next_field()]: a field, or a parse error.
    The body is the list of these steps; its end is [Ok(None)]. *)
Inductive Part :=
| PartOk (f : Field)
| PartErr (msg : string).

Section Handlers.

(** Outcome of [store.put(key, bytes)] on the S3 endpoint: [Some msg]
    when the request fails (the bucket is then untouched). *)
Variable put_err : string -> bytes -> option string.

(** The [while let Some(field) = multipart.next_field()...] loop of
    [upload_file]; [uploaded] is [uploaded_files]. *)
Fixpoint upload_loop (st : store) (parts : list Part) (uploaded : list string)
  : store * Result Response :=
  match parts with
  | [] => (st, Ok (UploadedJson uploaded))
  | PartErr m :: _ => (st, Err (Message m))
  | PartOk f :: rest =>
      match field_file_name f with
      | None => (st, Err (Message "No file name provided"))
      | Some file_name =>
          match field_bytes f with
          | inr m => (st, Err (Message m))
          | inl b =>
              let object_path := object_path file_name in
              match put_err object_path b with
              | Some m => (st, Err (Message m))
              | None => upload_loop (<[object_path := b]> st) rest
                          (uploaded ++ [file_name])
              end
          end
      end
  end.

(** [upload_file]: the store handle is built from the resolved
    configuration, then the loop runs from an empty [uploaded_files]. *)
Definition upload_file (st : store) (multipart : list Part)
  : store * Result Response :=
  upload_loop st multipart [].

(** [get_file] on an S3 endpoint that answers every GET and body read:
    the path parameter [file_name], then [store.get] on
    [ObjectPath::from(file_name)], answered with status 200 and the bytes.
    [get_file_io] below is the download with the endpoint's failures. *)
Definition get_file (st : store) (params : gmap string string)
  : store * Result Response :=
  match params !! "file_name" with
  | None => (st, Err (Message "File name required"))
  | Some file_name =>
      let object_path := object_path file_name in
      match st !! object_path with
      | None => (st, Err (Message (not_found_msg object_path)))
      | Some b => (st, Ok (RawBody 200 b))
      end
  end.

(** The [while let Some(result) = stream.next()] loop of [get_all_files]. *)
Fixpoint list_loop (stream : list (ObjectMeta + string)) (files : list FileInfo)
  : Result Response :=
  match stream with
  | [] => Ok (FilesJson files)
  | inr m :: _ => Err (Message m)
  | inl meta :: rest =>
      list_loop rest
        (files ++ [mkFileInfo (default "unknown" (filename (location meta)))
                              (meta_size meta)])
  end.

(** [get_all_files], reading the bucket's listing [stream]. *)
Definition get_all_files (st : store) (stream : list (ObjectMeta + string))
  : store * Result Response :=
  (st, list_loop stream []).

End Handlers.

(* ------------------------------------------------------------------ *)
(* The download with the endpoint's failures                          *)
(* ------------------------------------------------------------------ *)

(** [object_store::Error::NotFound { path, source }] as [to_string]
    renders it: "Object at location {path} not found: {source}". *)
Definition not_found_display (key source : string) : string :=
  "Object at location " ++ key ++ " not found: " ++ source.

Section Download.

(** The S3 endpoint's side of a download of [key]: [get_fail key] is the
    error text of a GET that fails for another reason than a missing key
    (connection, credentials, malformed answer); [nf_source key] is the
    client's error text wrapped in the [NotFound] of a missing key;
    [read_fail key] is the error text of a failed [result.bytes()]. *)
Variable get_fail : string -> option string.
Variable nf_source : string -> string.
Variable read_fail : string -> option string.

(** [store.get(&object_path)] then [result.bytes()], each error mapped by
    [Error::Message(e.to_string())], and the 200 response with the bytes. *)
Definition store_get_bytes (st : store) (key : string) : Result Response :=
  match get_fail key with
  | Some m => Err (Message m)
  | None =>
      match st !! key with
      | None => Err (Message (not_found_display key (nf_source key)))
      | Some b =>
          match read_fail key with
          | Some m => Err (Message m)
          | None => Ok (RawBody 200 b)
          end
      end
  end.

(** [get_file]: the path parameter [file_name] (missing: "File name
    required"), then the GET of [ObjectPath::from(file_name)]. *)
Definition get_file_io (st : store) (params : gmap string string)
  : store * Result Response :=
  match params !! "file_name" with
  | None => (st, Err (Message "File name required"))
  | Some file_name => (st, store_get_bytes st (object_path file_name))
  end.

End Download.

(* ------------------------------------------------------------------ *)
(* The S3 listing: Path::parse of every key, in key order             *)
(* ------------------------------------------------------------------ *)

(** [char::is_ascii_control]. *)
Definition is_ascii_control (c : ascii) : bool :=
  Nat.ltb (nat_of_ascii c) 32 || Nat.eqb (nat_of_ascii c) 127.

Fixpoint no_control (s : string) : bool :=
  match s with
  | EmptyString => true
  | String c s' => negb (is_ascii_control c) && no_control s'
  end.

(** [path.strip_prefix('/').unwrap_or(path)]. *)
Definition strip_first_slash (s : string) : string :=
  match s with
  | String c s' => if Ascii.eqb c "/"%char then s' else s
  | EmptyString => s
  end.

(** [stripped.strip_suffix('/').unwrap_or(stripped)]. *)
Fixpoint strip_last_slash (s : string) : string :=
  match s with
  | EmptyString => EmptyString
  | String c EmptyString =>
      if Ascii.eqb c "/"%char then EmptyString else String c EmptyString
  | String c s' => String c (strip_last_slash s')
  end.

(** A segment accepted by [Path::parse]: not empty ([EmptySegment]), and
    accepted by [PathPart::parse] (not "." or "..", no ASCII control). *)
Definition segment_ok (seg : string) : bool :=
  negb (String.eqb seg "") && negb (String.eqb seg ".") &&
  negb (String.eqb seg "..") && no_control seg.

(** [Path::parse(key)]: strip one leading '/', the empty path if nothing
    is left, else strip one trailing '/' and check every segment. *)
Definition path_parse (key : string) : option string :=
  let stripped := strip_first_slash key in
  if String.eqb stripped "" then Some ""
  else
    let stripped := strip_last_slash stripped in
    if forallb segment_ok (split_delim stripped) then Some stripped else None.

(** S3 ListObjectsV2 returns keys in ascending byte order. *)
Definition key_le (a b : string * bytes) : Prop := String.leb a.1 b.1 = true.

#[global] Instance key_le_dec : RelDecision key_le :=
  fun a b => decide (String.leb a.1 b.1 = true).

Section Listing.

(** Error text of a key that [Path::parse] rejects, as the listing
    stream reports it. *)
Variable parse_err_text : string -> string.

(** The stream of [store.list(None)] on S3: each key, in byte order,
    turned into an [ObjectMeta] by [Path::parse], or an error.  (A
    rejected key fails its whole page; since [get_all_files] stops at
    the first error, per-key items give the same outcome.) *)
Definition s3_listing (st : store) : list (ObjectMeta + string) :=
  map (fun kv => match path_parse kv.1 with
                 | Some loc => inl (mkObjectMeta loc (length kv.2))
                 | None => inr (parse_err_text kv.1)
                 end)
      (merge_sort key_le (map_to_list st)).

End Listing.

(** A well-formed multipart body whose every field carries a file name
    and a readable payload. *)
Definition named_parts (fields : list (string * bytes)) : list Part :=
  map (fun nb => PartOk (mkField (Some nb.1) (inl nb.2))) fields.

(** The bucket after [put] of each field, in order, under its key. *)
Definition write_all (st : store) (fields : list (string * bytes)) : store :=
  foldl (fun st nb => <[object_path nb.1 := nb.2]> st) st fields.

(** A sequence of upload requests, each run on the bucket the previous
    one left (downloads and listings leave the bucket as it is). *)
Definition run_uploads (put_err : string -> bytes -> option string)
    (st : store) (reqs : list (list Part)) : store :=
  foldl (fun st req => fst (upload_file put_err st req)) st reqs.

(** The file names carried by the fields of a multipart body. *)
Definition part_names (parts : list Part) : list string :=
  flat_map (fun p => match p with
                     | PartOk f => match field_file_name f with
                                   | Some n => [n]
                                   | None => []
                                   end
                     | PartErr _ => []
                     end) parts.

(** The file names an upload request actually writes: the loop's puts,
    up to its first failing step. *)
Fixpoint puts_done (put_err : string -> bytes -> option string)
    (parts : list Part) : list string :=
  match parts with
  | [] => []
  | PartErr _ :: _ => []
  | PartOk f :: rest =>
      match field_file_name f with
      | None => []
      | Some n =>
          match field_bytes f with
          | inr _ => []
          | inl b =>
              match put_err (object_path n) b with
              | Some _ => []
              | None => n :: puts_done put_err rest
              end
          end
      end
  end.

(* ------------------------------------------------------------------ *)
(* Configuration: S3Config, get_s3_config                             *)
(* ------------------------------------------------------------------ *)

(** [serde_json::Value]; an object is its map as a list of entries
    (a JSON map holds each key once). *)
Inductive json :=
| JNull
| JBool (b : bool)
| JNumber (n : Z)
| JString (s : string)
| JArray (items : list json)
| JObject (entries : list (string * json)).

Record S3Config := mkS3Config {
  endpoint : string;
  bucket : string;
  region : string;
  access_key : string;
  secret_key : string
}.

(** [impl Default for S3Config]. *)
Definition default_config : S3Config :=
  mkS3Config "http://minio:9000" "files" "us-east-1" "minioadmin" "minioadmin".

Fixpoint json_get (k : string) (entries : list (string * json)) : option json :=
  match entries with
  | [] => None
  | (k', v) :: rest => if String.eqb k k' then Some v else json_get k rest
  end.

Definition as_string (v : json) : option string :=
  match v with JString s => Some s | _ => None end.

(** A required [String] field of the derived [Deserialize] of [S3Config]:
    missing or of another type is an error. *)
Definition string_field (k : string) (entries : list (string * json))
  : option string :=
  v ← json_get k entries; as_string v.

(** [serde_json::from_value::<S3Config>(s.clone()).ok()].  The derived
    impl has no [#[serde(default)]]: an object must carry all five fields
    as strings (unknown keys are ignored), an array must hold exactly five
    strings in field order, and any other value is rejected. *)
Definition decode_s3_config (v : json) : option S3Config :=
  match v with
  | JObject entries =>
      e ← string_field "endpoint" entries;
      b ← string_field "bucket" entries;
      r ← string_field "region" entries;
      a ← string_field "access_key" entries;
      s ← string_field "secret_key" entries;
      Some (mkS3Config e b r a s)
  | JArray [ve; vb; vr; va; vs] =>
      e ← as_string ve; b ← as_string vb; r ← as_string vr;
      a ← as_string va; s ← as_string vs;
      Some (mkS3Config e b r a s)
  | _ => None
  end.

(** The closure given to [get_or_init]: [ctx.config.settings] decoded,
    [unwrap_or_default()] otherwise. *)
Definition resolve_config (settings : option json) : S3Config :=
  match settings ≫= decode_s3_config with
  | Some c => c
  | None => default_config
  end.

(** [static S3_CONFIG: OnceLock<S3Config>]: empty until first use. *)
Abbreviation once_cell := (option S3Config).

(** [get_s3_config(ctx)]: [S3_CONFIG.get_or_init(..).clone()]; the cell
    is threaded as process state, [settings] is [ctx.config.settings]. *)
Definition get_s3_config (cell : once_cell) (settings : option json)
  : once_cell * S3Config :=
  match cell with
  | Some c => (Some c, c)
  | None => let c := resolve_config settings in (Some c, c)
  end.

(** A sequence of [get_s3_config] calls in one process, each with its
    own context; the list of returned configurations and the final cell. *)
Fixpoint get_s3_config_calls (cell : once_cell) (ctxs : list (option json))
  : list S3Config * once_cell :=
  match ctxs with
  | [] => ([], cell)
  | ctx :: rest =>
      let '(cell', c) := get_s3_config cell ctx in
      let '(cs, cell'') := get_s3_config_calls cell' rest in
      (c :: cs, cell'')
  end.

(* ------------------------------------------------------------------ *)
(* Properties of the handlers                                         *)
(* ------------------------------------------------------------------ *)

Section UploadFacts.

Variable put_err : string -> bytes -> option string.

Lemma upload_loop_named (st : store) (fields : list (string * bytes))
    (rest : list Part) (acc : list string) :
  (forall n b, In (n, b) fields -> put_err (object_path n) b = None) ->
  upload_loop put_err st (named_parts fields ++ rest) acc =
  upload_loop put_err (write_all st fields) rest (acc ++ map fst fields).
Proof.
  revert st acc.
  induction fields as [|[n b] fields IH]; intros st acc Hput; simpl.
  - by rewrite app_nil_r.
  - rewrite (Hput n b (or_introl eq_refl)).
    rewrite IH by (intros; apply Hput; by right).
    by rewrite <- app_assoc.
Qed.

Lemma upload_loop_other_key (st : store) (parts : list Part)
    (acc : list string) (k : string) :
  (forall n, In n (part_names parts) -> object_path n <> k) ->
  fst (upload_loop put_err st parts acc) !! k = st !! k.
Proof.
  revert st acc.
  induction parts as [|p parts IH]; intros st acc Hk; simpl; [done|].
  destruct p as [f|m]; simpl; [|done].
  destruct (field_file_name f) as [n|] eqn:Hn; simpl; [|done].
  destruct (field_bytes f) as [b|m]; simpl; [|done].
  destruct (put_err (object_path n) b); simpl; [done|].
  simpl in Hk; rewrite Hn in Hk.
  rewrite IH by (intros n' Hn'; apply Hk; simpl; by right).
  rewrite lookup_insert_ne; [done|].
  apply Hk; simpl; by left.
Qed.

Lemma run_uploads_other_key (st : store) (reqs : list (list Part)) (k : string) :
  (forall req n, In req reqs -> In n (part_names req) -> object_path n <> k) ->
  run_uploads put_err st reqs !! k = st !! k.
Proof.
  revert st.
  induction reqs as [|req reqs IH]; intros st Hk; simpl; [done|].
  unfold run_uploads in IH |- *; simpl.
  rewrite IH by (intros; eapply Hk; [by right | eauto]).
  unfold upload_file. apply upload_loop_other_key.
  intros n Hn. eapply Hk; [by left | exact Hn].
Qed.

Lemma upload_loop_unwritten_key (st : store) (parts : list Part)
    (acc : list string) (k : string) :
  (forall n, In n (puts_done put_err parts) -> object_path n <> k) ->
  fst (upload_loop put_err st parts acc) !! k = st !! k.
Proof.
  revert st acc.
  induction parts as [|p parts IH]; intros st acc Hk; simpl; [done|].
  destruct p as [[[n|] [b|m]]|m]; simpl in Hk |- *; try done.
  destruct (put_err (object_path n) b); simpl; [done|].
  rewrite IH by (intros n' Hn'; apply Hk; by right).
  rewrite lookup_insert_ne; [done|]. apply Hk; by left.
Qed.

Lemma run_uploads_unwritten_key (st : store) (reqs : list (list Part)) (k : string) :
  (forall req n, In req reqs -> In n (puts_done put_err req) -> object_path n <> k) ->
  run_uploads put_err st reqs !! k = st !! k.
Proof.
  revert st.
  induction reqs as [|req reqs IH]; intros st Hk; simpl; [done|].
  unfold run_uploads in IH |- *; simpl.
  rewrite IH by (intros; eapply Hk; [by right | eauto]).
  unfold upload_file. apply upload_loop_unwritten_key.
  intros n Hn. eapply Hk; [by left | exact Hn].
Qed.

End UploadFacts.

Lemma get_file_io_lookup (get_fail : string -> option string)
    (nf_source : string -> string) (read_fail : string -> option string)
    (st : store) (file_name : string) :
  get_file_io get_fail nf_source read_fail st {["file_name" := file_name]} =
  (st, store_get_bytes get_fail nf_source read_fail st (object_path file_name)).
Proof. unfold get_file_io. by rewrite lookup_singleton_eq. Qed.

Lemma get_file_lookup (st : store) (file_name : string) :
  get_file st {["file_name" := file_name]} =
  (st, match st !! object_path file_name with
       | None => Err (Message (not_found_msg (object_path file_name)))
       | Some b => Ok (RawBody 200 b)
       end).
Proof.
  unfold get_file. rewrite lookup_singleton_eq. simpl.
  by destruct (st !! object_path file_name).
Qed.

Definition no_put_err : string -> bytes -> option string := fun _ _ => None.

(* C1 ------------------------------------------------------------------ *)

(** C1 (counterexample): uploading "a", then uploading the different name
    "/a", and downloading "a" does not return the bytes uploaded under "a":
    both names are stored under the key "a". *)
Lemma C1_roundtrip_counterexample :
  let st1 := fst (upload_file no_put_err ∅ (named_parts [("a", [Byte.x01])])) in
  let st2 := fst (upload_file no_put_err st1 (named_parts [("/a", [Byte.x02])])) in
  "/a" <> "a" /\
  snd (get_file st2 {["file_name" := "a"]}) <> Ok (RawBody 200 [Byte.x01]).
Proof. vm_compute. split; congruence. Qed.

(** C1 (amended): after an upload of [file_name] with payload [b] whose
    put succeeds, and any intervening uploads none of which wrote a name
    mapping to the same object key [object_path file_name] (requests that
    failed before reaching such a name are allowed), downloading
    [file_name], when the endpoint answers the GET and the body read of
    that key, succeeds with status 200 and exactly the bytes [b], and
    leaves the bucket unchanged. *)
Theorem C1_upload_get_roundtrip (put_err : string -> bytes -> option string)
    (get_fail : string -> option string) (nf_source : string -> string)
    (read_fail : string -> option string)
    (st : store) (file_name : string) (b : bytes) (reqs : list (list Part)) :
  put_err (object_path file_name) b = None ->
  (forall req n, In req reqs -> In n (puts_done put_err req) ->
     object_path n <> object_path file_name) ->
  get_fail (object_path file_name) = None ->
  read_fail (object_path file_name) = None ->
  let st' := run_uploads put_err
               (fst (upload_file put_err st (named_parts [(file_name, b)]))) reqs in
  get_file_io get_fail nf_source read_fail st' {["file_name" := file_name]} =
    (st', Ok (RawBody 200 b)).
Proof.
  intros Hput Hother Hget Hread st'.
  rewrite get_file_io_lookup. f_equal. unfold store_get_bytes.
  rewrite Hget. subst st'.
  rewrite run_uploads_unwritten_key by exact Hother.
  unfold upload_file. simpl. rewrite Hput. simpl.
  by rewrite lookup_insert_eq, Hread.
Qed.

(** The intervening request fails on a parse error before its field
    "a" is reached, so it writes nothing. *)
Lemma C1_upload_get_roundtrip_witness :
  no_put_err (object_path "a") [Byte.x01] = None /\
  (forall req n, In req [[PartErr "bad multipart"; PartOk (mkField (Some "a") (inl [Byte.x02]))]] ->
     In n (puts_done no_put_err req) -> object_path n <> object_path "a") /\
  let st' := run_uploads no_put_err
               (fst (upload_file no_put_err ∅ (named_parts [("a", [Byte.x01])])))
               [[PartErr "bad multipart"; PartOk (mkField (Some "a") (inl [Byte.x02]))]] in
  get_file_io (fun _ => None) (fun _ => "NoSuchKey") (fun _ => None)
    st' {["file_name" := "a"]} = (st', Ok (RawBody 200 [Byte.x01])).
Proof.
  assert (H1 : no_put_err (object_path "a") [Byte.x01] = None) by reflexivity.
  assert (H2 : forall req n,
             In req [[PartErr "bad multipart"; PartOk (mkField (Some "a") (inl [Byte.x02]))]] ->
             In n (puts_done no_put_err req) -> object_path n <> object_path "a").
  { intros req n [<-|[]] []. }
  split; [exact H1|]. split; [exact H2|].
  exact (C1_upload_get_roundtrip no_put_err (fun _ => None) (fun _ => "NoSuchKey")
           (fun _ => None) ∅ "a" [Byte.x01] _ H1 H2 eq_refl eq_refl).
Defined.

(* C2 ------------------------------------------------------------------ *)




(* C3 ------------------------------------------------------------------ *)

(** C3 (counterexample): a body whose only field has no file name fails
    with [Error::Message("No file name provided")], which is neither an
    error with the text "no file name provided" nor a client-error kind. *)
Lemma C3_missing_name_counterexample :
  snd (upload_file no_put_err ∅ [PartOk (mkField None (inl []))])
    <> Err (Message "no file name provided") /\
  snd (upload_file no_put_err ∅ [PartOk (mkField None (inl []))])
    <> Err (BadRequest "no file name provided").
Proof. vm_compute. split; congruence. Qed.

(** C3 (amended): when a field without a file name follows the named
    fields [pre] (readable, with succeeding puts), [upload_file] fails with
    [Error::Message("No file name provided")], answered with status 500;
    the fields of [pre] stay written, and neither the offending field's
    payload nor any later field [post] is read or written. *)
Theorem C3_missing_name_aborts (put_err : string -> bytes -> option string)
    (st : store) (pre : list (string * bytes)) (payload : bytes + string)
    (post : list Part) :
  (forall n b, In (n, b) pre -> put_err (object_path n) b = None) ->
  upload_file put_err st (named_parts pre ++ PartOk (mkField None payload) :: post) =
    (write_all st pre, Err (Message "No file name provided")) /\
  error_status (Message "No file name provided") = 500.
Proof.
  intros Hput. split; [|reflexivity].
  unfold upload_file. by rewrite upload_loop_named.
Qed.

Lemma C3_missing_name_aborts_witness :
  (forall n b, In (n, b) [("a.txt", [Byte.x01])] -> no_put_err (object_path n) b = None) /\
  upload_file no_put_err ∅
    (named_parts [("a.txt", [Byte.x01])] ++
     PartOk (mkField None (inr "stream error")) ::
     named_parts [("b.txt", [Byte.x02])]) =
    (<["a.txt" := [Byte.x01]]> ∅, Err (Message "No file name provided")) /\
  error_status (Message "No file name provided") = 500.
Proof.
  assert (H : forall n b, In (n, b) [("a.txt", [Byte.x01])] ->
                no_put_err (object_path n) b = None) by reflexivity.
  split; [exact H|].
  exact (C3_missing_name_aborts no_put_err ∅ [("a.txt", [Byte.x01])]
           (inr "stream error") (named_parts [("b.txt", [Byte.x02])]) H).
Defined.

(* C10 ----------------------------------------------------------------- *)

(** C10: a multipart body with no field makes [upload_file] succeed with
    an empty [uploaded] list and leaves the bucket unchanged. *)
Theorem C10_upload_empty (put_err : string -> bytes -> option string) (st : store) :
  upload_file put_err st [] = (st, Ok (UploadedJson [])).
Proof. reflexivity. Qed.

(* C4 ------------------------------------------------------------------ *)

(** C4 (counterexample): downloading a name absent from the empty bucket
    fails with an error whose response status is 500, not a 404-class
    status. *)
Lemma C4_absent_counterexample :
  exists e, snd (get_file_io (fun _ => None) (fun _ => "NoSuchKey") (fun _ => None)
                   ∅ {["file_name" := "missing.txt"]}) = Err e /\
            ~ (400 <= error_status e < 500).
Proof.
  eexists. split; [vm_compute; reflexivity|]. vm_compute. lia.
Qed.

(** C4 (amended): downloading a name whose key K is absent from the
    bucket fails with an [Error::Message] whose text is object_store's
    [NotFound] display "Object at location K not found: <client error>"
    (or, when the GET fails for another reason, that error's text); it is
    answered with status 500 and leaves the bucket unchanged. *)
Theorem C4_absent_fails (get_fail : string -> option string)
    (nf_source : string -> string) (read_fail : string -> option string)
    (st : store) (file_name : string) :
  st !! object_path file_name = None ->
  let key := object_path file_name in
  let m := match get_fail key with
           | Some t => t
           | None => not_found_display key (nf_source key)
           end in
  get_file_io get_fail nf_source read_fail st {["file_name" := file_name]} =
    (st, Err (Message m)) /\
  error_status (Message m) = 500.
Proof.
  intros Habs key m. split; [|reflexivity].
  rewrite get_file_io_lookup. f_equal. unfold store_get_bytes.
  subst m key. destruct (get_fail (object_path file_name)); [done|].
  by rewrite Habs.
Qed.

Lemma C4_absent_fails_witness :
  (∅ : store) !! object_path "missing.txt" = None /\
  get_file_io (fun _ => None) (fun _ => "NoSuchKey") (fun _ => None)
    ∅ {["file_name" := "missing.txt"]} =
    (∅, Err (Message "Object at location missing.txt not found: NoSuchKey")) /\
  error_status (Message "Object at location missing.txt not found: NoSuchKey") = 500.
Proof.
  assert (H : (∅ : store) !! object_path "missing.txt" = None) by reflexivity.
  split; [exact H|].
  exact (C4_absent_fails (fun _ => None) (fun _ => "NoSuchKey") (fun _ => None)
           ∅ "missing.txt" H).
Defined.

(* C5 ------------------------------------------------------------------ *)

(** C5: uploading [file_name] with [b1] and then with a different [b2]
    (both puts succeeding) leaves one object under the key, holding [b2];
    the bucket is the first one with only [b2] put, and a download then
    returns [b2]. *)
Theorem C5_second_upload_overwrites (put_err : string -> bytes -> option string)
    (st : store) (file_name : string) (b1 b2 : bytes) :
  b1 <> b2 ->
  put_err (object_path file_name) b1 = None ->
  put_err (object_path file_name) b2 = None ->
  let st2 := fst (upload_file put_err
                    (fst (upload_file put_err st (named_parts [(file_name, b1)])))
                    (named_parts [(file_name, b2)])) in
  st2 = <[object_path file_name := b2]> st /\
  st2 !! object_path file_name = Some b2 /\
  get_file st2 {["file_name" := file_name]} = (st2, Ok (RawBody 200 b2)).
Proof.
  intros _ H1 H2 st2.
  assert (E : st2 = <[object_path file_name := b2]> st).
  { subst st2. unfold upload_file. simpl. rewrite H1. simpl. rewrite H2. simpl.
    apply insert_insert_eq. }
  split; [exact E|].
  assert (L : st2 !! object_path file_name = Some b2)
    by (rewrite E; apply lookup_insert_eq).
  split; [exact L|].
  by rewrite get_file_lookup, L.
Qed.

Lemma C5_second_upload_overwrites_witness :
  [Byte.x01] <> [Byte.x02] /\
  let st2 := fst (upload_file no_put_err
                    (fst (upload_file no_put_err ∅ (named_parts [("f", [Byte.x01])])))
                    (named_parts [("f", [Byte.x02])])) in
  st2 = <[object_path "f" := [Byte.x02]]> ∅ /\
  st2 !! object_path "f" = Some [Byte.x02] /\
  get_file st2 {["file_name" := "f"]} = (st2, Ok (RawBody 200 [Byte.x02])).
Proof.
  assert (H : [Byte.x01] <> [Byte.x02]) by discriminate.
  split; [exact H|].
  exact (C5_second_upload_overwrites no_put_err ∅ "f" _ _ H eq_refl eq_refl).
Defined.

(* C6 ------------------------------------------------------------------ *)

(** C6: configuration resolution is total; when the settings are absent
    or do not decode as a whole [S3Config], it yields the full default
    configuration, and an object lacking any one of the five fields as a
    string (a partial configuration) also yields the full default. *)
Theorem C6_config_defaults :
  (forall settings : option json,
     (settings = None \/
      exists v, settings = Some v /\ decode_s3_config v = None) ->
     resolve_config settings = default_config) /\
  (forall (entries : list (string * json)) (k : string),
     In k ["endpoint"; "bucket"; "region"; "access_key"; "secret_key"] ->
     string_field k entries = None ->
     resolve_config (Some (JObject entries)) = default_config).
Proof.
  split.
  - intros settings [->|[v [-> Hv]]]; [reflexivity|].
    unfold resolve_config. simpl. by rewrite Hv.
  - intros entries k Hk Hf. unfold resolve_config.
    change (Some (JObject entries) ≫= decode_s3_config)
      with (decode_s3_config (JObject entries)).
    unfold decode_s3_config.
    destruct Hk as [<-|[<-|[<-|[<-|[<-|[]]]]]]; rewrite Hf;
      repeat destruct (string_field _ entries); reflexivity.
Qed.

Lemma C6_config_defaults_witness :
  resolve_config None = default_config /\
  resolve_config (Some (JObject [("bucket", JString "docs")])) = default_config /\
  resolve_config (Some (JString "garbage")) = default_config.
Proof.
  destruct C6_config_defaults as [Hd Hp].
  split; [apply Hd; by left|].
  split.
  - apply (Hp [("bucket", JString "docs")] "endpoint"); [by left | reflexivity].
  - apply Hd. right. by eexists.
Defined.

(* C7 ------------------------------------------------------------------ *)

Lemma get_s3_config_calls_cached (c : S3Config) (ctxs : list (option json)) :
  get_s3_config_calls (Some c) ctxs = (repeat c (length ctxs), Some c).
Proof.
  induction ctxs as [|ctx ctxs IH]; simpl; [done|]. by rewrite IH.
Qed.

(** C7: in a process whose [S3_CONFIG] cell starts empty, the first call
    of [get_s3_config] resolves the configuration from its own context,
    every later call returns that same value whatever its context, and
    the cell keeps it for the rest of the process. *)
Theorem C7_config_memoised (ctx : option json) (ctxs : list (option json)) :
  get_s3_config_calls None (ctx :: ctxs) =
    (repeat (resolve_config ctx) (S (length ctxs)), Some (resolve_config ctx)).
Proof.
  simpl. by rewrite get_s3_config_calls_cached.
Qed.

(* C8 ------------------------------------------------------------------ *)

(** The [FileInfo] the listing gives an object stored under [kv.1]:
    [filename()] of its parsed location, "unknown" when it has none, and
    the object's size. *)
Definition key_entry (kv : string * bytes) : FileInfo :=
  mkFileInfo (default "unknown" (path_parse kv.1 ≫= filename)) (length kv.2).

Definition meta_entry (meta : ObjectMeta) : FileInfo :=
  mkFileInfo (default "unknown" (filename (location meta))) (meta_size meta).

Lemma list_loop_inl (metas : list ObjectMeta) (acc : list FileInfo) :
  list_loop (map inl metas) acc = Ok (FilesJson (acc ++ map meta_entry metas)).
Proof.
  revert acc. induction metas as [|meta metas IH]; intros acc; simpl.
  - by rewrite app_nil_r.
  - rewrite IH. by rewrite <- app_assoc.
Qed.

Lemma list_loop_err (pre : list (ObjectMeta + string)) (m : string)
    (post : list (ObjectMeta + string)) (acc : list FileInfo) :
  exists m', list_loop (pre ++ inr m :: post) acc = Err (Message m').
Proof.
  revert acc. induction pre as [|[meta|m0] pre IH]; intros acc; simpl.
  - by eexists.
  - apply IH.
  - by eexists.
Qed.

Lemma in_sorted_listing (st : store) (kv : string * bytes) :
  In kv (merge_sort key_le (map_to_list st)) <-> st !! kv.1 = Some kv.2.
Proof.
  destruct kv as [k b]. simpl. split.
  - intros Hin. apply elem_of_map_to_list, list_elem_of_In.
    eapply Permutation_in; [apply (merge_sort_Permutation key_le) | exact Hin].
  - intros Hk. eapply Permutation_in;
      [symmetry; apply (merge_sort_Permutation key_le)|].
    by apply list_elem_of_In, elem_of_map_to_list.
Qed.

Lemma get_all_files_parsed (parse_err_text : string -> string) (st : store) :
  (forall k b, st !! k = Some b -> is_Some (path_parse k)) ->
  get_all_files st (s3_listing parse_err_text st) =
    (st, Ok (FilesJson (map key_entry (merge_sort key_le (map_to_list st))))).
Proof.
  intros Hp. unfold get_all_files, s3_listing. f_equal.
  rewrite (map_ext_in _
             (fun kv => inl (mkObjectMeta (default "" (path_parse kv.1)) (length kv.2)))).
  - rewrite <- (map_map (fun kv => mkObjectMeta (default "" (path_parse kv.1)) (length kv.2)) inl).
    rewrite list_loop_inl. simpl. f_equal. f_equal. rewrite map_map.
    apply map_ext_in. intros [k b] Hin. apply in_sorted_listing in Hin.
    destruct (Hp k b Hin) as [loc Hloc]. unfold meta_entry, key_entry. simpl.
    by rewrite Hloc.
  - intros [k b] Hin. apply in_sorted_listing in Hin.
    destruct (Hp k b Hin) as [loc Hloc]. simpl. by rewrite Hloc.
Qed.

Lemma get_all_files_unparsable (parse_err_text : string -> string) (st : store)
    (k : string) (b : bytes) :
  st !! k = Some b -> path_parse k = None ->
  exists m, get_all_files st (s3_listing parse_err_text st) = (st, Err (Message m)).
Proof.
  intros Hk Hbad.
  assert (Hin : In (k, b) (merge_sort key_le (map_to_list st)))
    by (by apply in_sorted_listing).
  apply in_split in Hin as (l1 & l2 & E).
  unfold get_all_files, s3_listing. rewrite E, map_app, map_cons. cbn beta.
  change ((k, b).1) with k. rewrite Hbad.
  match goal with
  | |- context [list_loop (?pre ++ inr ?e :: ?post) []] =>
      destruct (list_loop_err pre e post []) as [m Hm]
  end.
  exists m. by rewrite Hm.
Qed.

(** C8: listing a bucket on S3.  When [Path::parse] accepts every key,
    the listing succeeds with one [FileInfo] per object (in key order, a
    permutation of the bucket's entries), named by the last segment of
    its parsed key ("unknown" when there is none) and sized by its byte
    length.  When enumerating an object fails (a key [Path::parse]
    rejects, or any error item in the stream), the whole listing fails
    with an error and no entries. *)
Theorem C8_list_files (parse_err_text : string -> string) (st : store) :
  ((forall k b, st !! k = Some b -> is_Some (path_parse k)) ->
   exists files,
     get_all_files st (s3_listing parse_err_text st) = (st, Ok (FilesJson files)) /\
     files ≡ₚ map key_entry (map_to_list st)) /\
  ((exists k b, st !! k = Some b /\ path_parse k = None) ->
   exists m, get_all_files st (s3_listing parse_err_text st) = (st, Err (Message m))) /\
  (forall pre m post,
     exists m', get_all_files st (pre ++ inr m :: post) = (st, Err (Message m'))).
Proof.
  split; [|split].
  - intros Hp. eexists. split; [by apply get_all_files_parsed|].
    apply Permutation_map, merge_sort_Permutation.
  - intros (k & b & Hk & Hbad). by eapply get_all_files_unparsable.
  - intros pre m post. destruct (list_loop_err pre m post []) as [m' Hm'].
    exists m'. unfold get_all_files. by rewrite Hm'.
Qed.

Lemma C8_list_files_witness :
  get_all_files {["folder/" := [Byte.x01]]} (s3_listing (fun k => k) {["folder/" := [Byte.x01]]})
    = ({["folder/" := [Byte.x01]]}, Ok (FilesJson [mkFileInfo "folder" 1])) /\
  exists m, get_all_files {["a//b" := []]} (s3_listing (fun k => k) {["a//b" := []]})
              = ({["a//b" := []]}, Err (Message m)).
Proof.
  destruct (C8_list_files (fun k => k) {["folder/" := [Byte.x01]]}) as [Hok _].
  destruct (C8_list_files (fun k => k) {["a//b" := []]}) as [_ [Hbad _]].
  split.
  - destruct Hok as (files & Hf & Hperm).
    + intros k b Hk. apply lookup_singleton_Some in Hk as [<- _]. by eexists.
    + rewrite Hf. rewrite map_to_list_singleton in Hperm. simpl in Hperm.
      symmetry in Hperm. apply Permutation_length_1_inv in Hperm. rewrite Hperm. reflexivity.
  - apply Hbad. exists "a//b", []. split; [apply lookup_singleton_eq | reflexivity].
Defined.

(* C9 ------------------------------------------------------------------ *)

(** C9 (counterexample): the names "/a" and "x?y" are not used as keys
    as they are: they are stored under "a" and "x%3Fy". *)
Lemma C9_raw_key_counterexample :
  object_path "/a" = "a" /\ object_path "x?y" = "x%3Fy" /\
  fst (upload_file no_put_err ∅ (named_parts [("/a", [Byte.x01])])) !! "/a" = None.
Proof. vm_compute. auto. Qed.

(** C9 (amended): upload writes and download reads one and the same key
    for a file name, [object_path file_name] ([ObjectPath::from]): the
    name split at '/', empty segments dropped, each segment
    percent-encoded (and "." and ".." escaped), joined again with '/'. *)
Theorem C9_same_key_for_name (put_err : string -> bytes -> option string)
    (st : store) (file_name : string) (b : bytes) :
  put_err (object_path file_name) b = None ->
  fst (upload_file put_err st (named_parts [(file_name, b)])) =
    <[object_path file_name := b]> st /\
  (forall (get_fail : string -> option string) (nf_source : string -> string)
          (read_fail : string -> option string) (st' : store),
     get_file_io get_fail nf_source read_fail st' {["file_name" := file_name]} =
     (st', store_get_bytes get_fail nf_source read_fail st' (object_path file_name))).
Proof.
  intros Hput. split.
  - unfold upload_file. simpl. by rewrite Hput.
  - intros get_fail nf_source read_fail st'. apply get_file_io_lookup.
Qed.

Lemma C9_same_key_for_name_witness :
  no_put_err (object_path "docs//r.txt") [Byte.x01] = None /\
  fst (upload_file no_put_err ∅ (named_parts [("docs//r.txt", [Byte.x01])])) =
    <["docs/r.txt" := [Byte.x01]]> ∅ /\
  (forall (get_fail : string -> option string) (nf_source : string -> string)
          (read_fail : string -> option string) (st' : store),
     get_file_io get_fail nf_source read_fail st' {["file_name" := "docs//r.txt"]} =
     (st', store_get_bytes get_fail nf_source read_fail st' "docs/r.txt")).
Proof.
  assert (H : no_put_err (object_path "docs//r.txt") [Byte.x01] = None) by reflexivity.
  split; [exact H|].
  exact (C9_same_key_for_name no_put_err ∅ "docs//r.txt" [Byte.x01] H).
Defined.

(* ------------------------------------------------------------------ *)
(* Further properties: object keys                                    *)
(* ------------------------------------------------------------------ *)

(** No '/' in a string. *)
Fixpoint slash_free (s : string) : bool :=
  match s with
  | EmptyString => true
  | String c s' => negb (Ascii.eqb c "/"%char) && slash_free s'
  end.

(** Every character outside [INVALID] (hence no '/' either). *)
Fixpoint plain_chars (s : string) : bool :=
  match s with
  | EmptyString => true
  | String c s' => negb (invalid_byte c) && plain_chars s'
  end.

Lemma split_delim_slash_free (s : string) :
  slash_free s = true -> split_delim s = [s].
Proof.
  induction s as [|c s IH]; simpl; [done|].
  intros [Hc Hs]%andb_prop. rewrite IH by exact Hs.
  apply negb_true_iff in Hc. by rewrite Hc.
Qed.

Lemma plain_chars_slash_free (s : string) :
  plain_chars s = true -> slash_free s = true.
Proof.
  induction s as [|c s IH]; simpl; [done|].
  intros [Hc Hs]%andb_prop. rewrite IH by exact Hs. rewrite andb_true_r.
  apply negb_true_iff. apply negb_true_iff in Hc.
  destruct (Ascii.eqb_spec c "/"%char) as [->|]; [discriminate|done].
Qed.

Lemma percent_encode_plain (s : string) :
  plain_chars s = true -> percent_encode s = s.
Proof.
  induction s as [|c s IH]; simpl; [done|].
  intros [Hc Hs]%andb_prop. apply negb_true_iff in Hc.
  rewrite Hc, IH by exact Hs. done.
Qed.

(** Inverse of [hex_digit] on the sixteen digits. *)
Definition hex_value (c : ascii) : nat :=
  match String.index 0 (String c "") "0123456789ABCDEF" with
  | Some n => n
  | None => 16
  end.

Lemma hex_value_digit (a : nat) : a < 16 -> hex_value (hex_digit a) = a.
Proof.
  intros Ha.
  assert (H : forallb (fun a => Nat.eqb (hex_value (hex_digit a)) a)
                (seq 0 16) = true) by reflexivity.
  rewrite forallb_forall in H.
  apply Nat.eqb_eq, H, in_seq. lia.
Qed.

Lemma hex_digit_inj (a b : nat) :
  a < 16 -> b < 16 -> hex_digit a = hex_digit b -> a = b.
Proof.
  intros Ha Hb E. rewrite <- (hex_value_digit a Ha), <- (hex_value_digit b Hb).
  by rewrite E.
Qed.

Lemma percent_code_inj (c1 c2 : ascii) :
  hex_digit (Nat.div (nat_of_ascii c1) 16) = hex_digit (Nat.div (nat_of_ascii c2) 16) ->
  hex_digit (Nat.modulo (nat_of_ascii c1) 16) = hex_digit (Nat.modulo (nat_of_ascii c2) 16) ->
  c1 = c2.
Proof.
  intros Hd Hm.
  pose proof (nat_ascii_bounded c1) as B1. pose proof (nat_ascii_bounded c2) as B2.
  apply hex_digit_inj in Hd; [| apply Nat.Div0.div_lt_upper_bound; lia
                              | apply Nat.Div0.div_lt_upper_bound; lia].
  apply hex_digit_inj in Hm; [| apply Nat.mod_upper_bound; lia
                              | apply Nat.mod_upper_bound; lia].
  rewrite <- (ascii_nat_embedding c1), <- (ascii_nat_embedding c2). f_equal.
  rewrite (Nat.div_mod_eq (nat_of_ascii c1) 16), (Nat.div_mod_eq (nat_of_ascii c2) 16).
  by rewrite Hd, Hm.
Qed.

Lemma percent_encode_inj (s1 s2 : string) :
  percent_encode s1 = percent_encode s2 -> s1 = s2.
Proof.
  revert s2. induction s1 as [|c1 s1 IH]; intros [|c2 s2]; simpl;
    try (done || by destruct (invalid_byte _)).
  destruct (invalid_byte c1) eqn:I1, (invalid_byte c2) eqn:I2; intros E.
  - injection E as Hd Hm Hr. f_equal; [by apply percent_code_inj | by apply IH].
  - injection E as <- _. discriminate I2.
  - injection E as -> _. discriminate I1.
  - injection E as -> Hr. f_equal. by apply IH.
Qed.

Lemma percent_encode_not_dot_code (v rest : string) :
  percent_encode v <> "%2E" ++ rest.
Proof.
  destruct v as [|c v]; simpl; [discriminate|].
  destruct (invalid_byte c) eqn:I; intros E.
  - injection E as Hd Hm _.
    assert (Hc : c = "."%char).
    { apply percent_code_inj; [exact Hd | exact Hm]. }
    subst c. discriminate I.
  - injection E as -> _. discriminate I.
Qed.

Lemma path_part_inj (v1 v2 : string) : path_part v1 = path_part v2 -> v1 = v2.
Proof.
  unfold path_part. intros E.
  destruct (String.eqb_spec v1 "."), (String.eqb_spec v1 ".."),
           (String.eqb_spec v2 "."), (String.eqb_spec v2 ".."); subst;
    try done; try discriminate.
  all: try (exfalso; match type of E with
         | percent_encode ?v = ?t =>
             apply (percent_encode_not_dot_code v (substring 3 3 t)); exact E
         | ?t = percent_encode ?v =>
             apply (percent_encode_not_dot_code v (substring 3 3 t)); symmetry; exact E
         end).
  all: by apply percent_encode_inj.
Qed.

Lemma path_part_nonempty (v : string) : v <> "" -> path_part v <> "".
Proof.
  intros Hv. unfold path_part.
  destruct (String.eqb v "."); [discriminate|].
  destruct (String.eqb v ".."); [discriminate|].
  destruct v as [|c v]; [done|]. simpl. by destruct (invalid_byte c).
Qed.

Lemma object_path_slash_free (v : string) :
  v <> "" -> slash_free v = true -> object_path v = path_part v.
Proof.
  intros Hv Hs. unfold object_path. rewrite split_delim_slash_free by exact Hs.
  simpl. destruct (String.eqb_spec (path_part v) "") as [E|_].
  - by apply path_part_nonempty in E.
  - done.
Qed.

(* ------------------------------------------------------------------ *)
(* Further properties: upload                                         *)
(* ------------------------------------------------------------------ *)

Section MoreUpload.

Variable put_err : string -> bytes -> option string.

Lemma upload_loop_ok_inv (st : store) (parts : list Part) (acc : list string)
    (r : Response) :
  snd (upload_loop put_err st parts acc) = Ok r ->
  exists fields,
    parts = named_parts fields /\
    r = UploadedJson (acc ++ map fst fields) /\
    fst (upload_loop put_err st parts acc) = write_all st fields /\
    (forall n b, In (n, b) fields -> put_err (object_path n) b = None).
Proof.
  revert st acc. induction parts as [|p parts IH]; intros st acc; simpl.
  - intros E. injection E as <-. exists []. simpl. rewrite app_nil_r. done.
  - destruct p as [f|m]; simpl; [|discriminate].
    destruct f as [[n|] [b|m]]; simpl; try discriminate.
    destruct (put_err (object_path n) b) eqn:Hp; simpl; [discriminate|].
    intros E. destruct (IH _ _ E) as (fields & -> & -> & Hst & Hput).
    exists ((n, b) :: fields). split; [done|]. split; [by rewrite <- app_assoc|].
    split; [exact Hst|].
    intros n' b' [H|H]; [by inversion H; subst | by apply Hput].
Qed.

Lemma upload_loop_keeps_keys (st : store) (parts : list Part) (acc : list string)
    (k : string) :
  is_Some (st !! k) -> is_Some (fst (upload_loop put_err st parts acc) !! k).
Proof.
  revert st acc. induction parts as [|p parts IH]; intros st acc Hk; simpl; [done|].
  destruct p as [f|m]; simpl; [|done].
  destruct (field_file_name f) as [n|]; simpl; [|done].
  destruct (field_bytes f) as [b|m]; simpl; [|done].
  destruct (put_err (object_path n) b); simpl; [done|].
  apply IH. destruct (String.eq_dec (object_path n) k) as [->|Hne].
  - rewrite lookup_insert_eq. by eexists.
  - by rewrite lookup_insert_ne.
Qed.

Lemma upload_loop_err_message (st : store) (parts : list Part) (acc : list string)
    (e : Error) :
  snd (upload_loop put_err st parts acc) = Err e -> exists m, e = Message m.
Proof.
  revert st acc. induction parts as [|p parts IH]; intros st acc; simpl;
    [discriminate|].
  destruct p as [f|m]; simpl; [|intros E; injection E as <-; by eexists].
  destruct (field_file_name f) as [n|]; simpl; [|intros E; injection E as <-; by eexists].
  destruct (field_bytes f) as [b|m]; simpl; [|intros E; injection E as <-; by eexists].
  destruct (put_err (object_path n) b); simpl; [intros E; injection E as <-; by eexists|].
  apply IH.
Qed.

End MoreUpload.

Lemma write_all_app (st : store) (fs1 fs2 : list (string * bytes)) :
  write_all st (fs1 ++ fs2) = write_all (write_all st fs1) fs2.
Proof. unfold write_all. apply foldl_app. Qed.

Lemma write_all_other_key (st : store) (fields : list (string * bytes)) (k : string) :
  (forall n b, In (n, b) fields -> object_path n <> k) ->
  write_all st fields !! k = st !! k.
Proof.
  revert st. induction fields as [|[n b] fields IH]; intros st Hk; simpl; [done|].
  rewrite IH by (intros; eapply Hk; by right).
  apply lookup_insert_ne. eapply Hk. by left.
Qed.

(** Extra: an upload whose named, readable fields [pre] all get stored
    and which then hits a failing step (a multipart parse error, a field
    body that cannot be read, or a rejected put) fails with
    [Error::Message] carrying that step's own error text; the fields of
    [pre] stay written and nothing after the failing step is touched. *)
Theorem upload_failure_keeps_prefix (put_err : string -> bytes -> option string)
    (st : store) (pre : list (string * bytes)) (bad : Part) (post : list Part)
    (m : string) :
  (forall n b, In (n, b) pre -> put_err (object_path n) b = None) ->
  (bad = PartErr m \/
   (exists n, bad = PartOk (mkField (Some n) (inr m))) \/
   (exists n b, bad = PartOk (mkField (Some n) (inl b)) /\
                put_err (object_path n) b = Some m)) ->
  upload_file put_err st (named_parts pre ++ bad :: post) =
    (write_all st pre, Err (Message m)).
Proof.
  intros Hput Hbad. unfold upload_file. rewrite upload_loop_named by exact Hput.
  destruct Hbad as [->|[[n ->]|(n & b & -> & Hp)]]; simpl; [done|done|].
  by rewrite Hp.
Qed.

Lemma upload_failure_keeps_prefix_witness :
  (forall n b, In (n, b) [("a.txt", [Byte.x01])] ->
     (fun k _ => if String.eqb k "b.txt" then Some "denied" else None)
       (object_path n) b = None) /\
  upload_file (fun k _ => if String.eqb k "b.txt" then Some "denied" else None) ∅
    (named_parts [("a.txt", [Byte.x01])] ++
     PartOk (mkField (Some "b.txt") (inl [Byte.x02])) :: []) =
    (write_all ∅ [("a.txt", [Byte.x01])], Err (Message "denied")).
Proof.
  assert (H : forall n b, In (n, b) [("a.txt", [Byte.x01])] ->
     (fun k _ => if String.eqb k "b.txt" then Some "denied" else None)
       (object_path n) b = None).
  { intros n b [E|[]]. by inversion E. }
  split; [exact H|].
  apply (upload_failure_keeps_prefix _ ∅ _ _ [] "denied" H).
  right; right. exists "b.txt", [Byte.x02]. split; reflexivity.
Defined.

(** Extra: an upload succeeds only on a body made entirely of named,
    readable fields whose puts all succeed; its [uploaded] list is then
    their names in order and the bucket has each payload put in order. *)
Theorem upload_success_inv (put_err : string -> bytes -> option string)
    (st : store) (parts : list Part) (r : Response) :
  snd (upload_file put_err st parts) = Ok r ->
  exists fields,
    parts = named_parts fields /\
    r = UploadedJson (map fst fields) /\
    fst (upload_file put_err st parts) = write_all st fields /\
    (forall n b, In (n, b) fields -> put_err (object_path n) b = None).
Proof. apply upload_loop_ok_inv. Qed.

Lemma upload_success_inv_witness :
  snd (upload_file no_put_err ∅ (named_parts [("a", [Byte.x01])])) =
    Ok (UploadedJson ["a"]) /\
  exists fields,
    named_parts [("a", [Byte.x01])] = named_parts fields /\
    UploadedJson ["a"] = UploadedJson (map fst fields) /\
    fst (upload_file no_put_err ∅ (named_parts [("a", [Byte.x01])])) = write_all ∅ fields /\
    (forall n b, In (n, b) fields -> no_put_err (object_path n) b = None).
Proof.
  assert (H : snd (upload_file no_put_err ∅ (named_parts [("a", [Byte.x01])])) =
                Ok (UploadedJson ["a"])) by reflexivity.
  split; [exact H|]. exact (upload_success_inv _ _ _ _ H).
Defined.

(** Extra: an upload changes only the objects under the keys of its
    fields' names: every other key keeps its object (or its absence). *)
Theorem upload_touches_only_named_keys (put_err : string -> bytes -> option string)
    (st : store) (parts : list Part) (k : string) :
  (forall n, In n (part_names parts) -> object_path n <> k) ->
  fst (upload_file put_err st parts) !! k = st !! k.
Proof. apply upload_loop_other_key. Qed.

Lemma upload_touches_only_named_keys_witness :
  (forall n, In n (part_names (named_parts [("a", [Byte.x01])])) -> object_path n <> "b") /\
  fst (upload_file no_put_err {["b" := [Byte.x02]]} (named_parts [("a", [Byte.x01])])) !! "b"
    = Some [Byte.x02].
Proof.
  assert (H : forall n, In n (part_names (named_parts [("a", [Byte.x01])])) ->
                object_path n <> "b").
  { intros n [<-|[]]. vm_compute. congruence. }
  split; [exact H|].
  exact (upload_touches_only_named_keys no_put_err {["b" := [Byte.x02]]} _ "b" H).
Defined.

(** Extra: an upload, successful or not, never deletes an object: every
    key present before is present after. *)
Theorem upload_never_deletes (put_err : string -> bytes -> option string)
    (st : store) (parts : list Part) (k : string) :
  is_Some (st !! k) -> is_Some (fst (upload_file put_err st parts) !! k).
Proof. apply upload_loop_keeps_keys. Qed.

Lemma upload_never_deletes_witness :
  is_Some (({["k" := [Byte.x01]]} : store) !! "k") /\
  is_Some (fst (upload_file no_put_err {["k" := [Byte.x01]]}
                  [PartOk (mkField (Some "k") (inl [])); PartErr "bad body"]) !! "k").
Proof.
  assert (H : is_Some (({["k" := [Byte.x01]]} : store) !! "k")) by (eexists; reflexivity).
  split; [exact H|]. exact (upload_never_deletes _ _ _ "k" H).
Defined.

(** Extra: within one upload request, when several fields map to the
    same key, the last of them wins: a download of the name then returns
    that field's payload. *)
Theorem upload_last_field_wins (put_err : string -> bytes -> option string)
    (st : store) (pre post : list (string * bytes)) (file_name : string) (b : bytes) :
  (forall n b', In (n, b') (pre ++ (file_name, b) :: post) ->
     put_err (object_path n) b' = None) ->
  (forall n b', In (n, b') post -> object_path n <> object_path file_name) ->
  let st' := fst (upload_file put_err st (named_parts (pre ++ (file_name, b) :: post))) in
  get_file st' {["file_name" := file_name]} = (st', Ok (RawBody 200 b)).
Proof.
  intros Hput Hpost st'.
  assert (E : st' = write_all st (pre ++ (file_name, b) :: post)).
  { subst st'. unfold upload_file.
    rewrite <- (app_nil_r (named_parts _)), upload_loop_named by exact Hput. done. }
  rewrite get_file_lookup, E, write_all_app. simpl.
  rewrite write_all_other_key by exact Hpost. by rewrite lookup_insert_eq.
Qed.

Lemma upload_last_field_wins_witness :
  (forall n (b' : bytes), In (n, b') ([("r.txt", [Byte.x01])] ++ ("r.txt", [Byte.x02]) :: [("s.txt", [])]) ->
     no_put_err (object_path n) b' = None) /\
  (forall n (b' : bytes), In (n, b') [("s.txt", [])] -> object_path n <> object_path "r.txt") /\
  let st' := fst (upload_file no_put_err ∅
                   (named_parts ([("r.txt", [Byte.x01])] ++ ("r.txt", [Byte.x02]) :: [("s.txt", [])]))) in
  get_file st' {["file_name" := "r.txt"]} = (st', Ok (RawBody 200 [Byte.x02])).
Proof.
  assert (H1 : forall n (b' : bytes), In (n, b') ([("r.txt", [Byte.x01])] ++ ("r.txt", [Byte.x02]) :: [("s.txt", [])]) ->
     no_put_err (object_path n) b' = None) by reflexivity.
  assert (H2 : forall n (b' : bytes), In (n, b') [("s.txt", [])] -> object_path n <> object_path "r.txt").
  { intros n b' [E|[]]. inversion E; subst. vm_compute. congruence. }
  split; [exact H1|]. split; [exact H2|].
  exact (upload_last_field_wins no_put_err ∅ [("r.txt", [Byte.x01])] [("s.txt", [])]
           "r.txt" [Byte.x02] H1 H2).
Defined.

(** Extra: once axum's extractors have accepted the request and the
    store handle is built, every error the three handler bodies return
    (a failed put, GET or body read included) is an [Error::Message],
    answered with 500. *)
Theorem handler_errors_are_500 :
  (forall put_err (st : store) parts e,
     snd (upload_file put_err st parts) = Err e -> error_status e = 500) /\
  (forall get_fail nf_source read_fail (st : store) params e,
     snd (get_file_io get_fail nf_source read_fail st params) = Err e ->
     error_status e = 500) /\
  (forall (st : store) stream e,
     snd (get_all_files st stream) = Err e -> error_status e = 500).
Proof.
  split; [|split].
  - intros put_err st parts e H.
    destruct (upload_loop_err_message put_err st parts [] e H) as [m ->]. done.
  - intros get_fail nf_source read_fail st params e. unfold get_file_io.
    destruct (params !! "file_name"); simpl; [|intros E; by injection E as <-].
    unfold store_get_bytes.
    destruct (get_fail _); [intros E; by injection E as <-|].
    destruct (st !! _); [|intros E; by injection E as <-].
    destruct (read_fail _); [intros E; by injection E as <-|discriminate].
  - intros st stream e. unfold get_all_files. simpl.
    generalize (@nil FileInfo). induction stream as [|[meta|m] stream IH]; intros acc;
      simpl; [discriminate | apply IH | intros E; by injection E as <-].
Qed.

(* ------------------------------------------------------------------ *)
(* Further properties: listing                                        *)
(* ------------------------------------------------------------------ *)

(** Extra: when [Path::parse] accepts every key, the listing of a
    bucket has exactly as many entries as the bucket has objects, and an
    empty bucket lists as an empty array. *)
Theorem list_files_count (parse_err_text : string -> string) (st : store) :
  (forall k b, st !! k = Some b -> is_Some (path_parse k)) ->
  exists files,
    get_all_files st (s3_listing parse_err_text st) = (st, Ok (FilesJson files)) /\
    length files = stdpp.base.size st /\
    (st = ∅ -> files = []).
Proof.
  intros Hp. eexists. split; [by apply get_all_files_parsed|].
  rewrite length_map.
  rewrite (Permutation_length (merge_sort_Permutation key_le (map_to_list st))).
  rewrite length_map_to_list. split; [done|].
  intros ->. by rewrite map_to_list_empty.
Qed.

Lemma list_files_count_witness :
  (forall k b, ({["a.txt" := [Byte.x01]]} : store) !! k = Some b -> is_Some (path_parse k)) /\
  exists files,
    get_all_files {["a.txt" := [Byte.x01]]}
      (s3_listing (fun k => k) {["a.txt" := [Byte.x01]]})
      = ({["a.txt" := [Byte.x01]]}, Ok (FilesJson files)) /\
    length files = stdpp.base.size ({["a.txt" := [Byte.x01]]} : store) /\
    (({["a.txt" := [Byte.x01]]} : store) = ∅ -> files = []).
Proof.
  assert (Hp : forall k b, ({["a.txt" := [Byte.x01]]} : store) !! k = Some b ->
                           is_Some (path_parse k)).
  { intros k b Hk. destruct (String.eqb_spec k "a.txt") as [->|Hne].
    - vm_compute. by eexists.
    - rewrite lookup_singleton_ne in Hk by congruence. discriminate. }
  split; [exact Hp|]. exact (list_files_count (fun k => k) _ Hp).
Defined.

(** Extra: when the listing stream fails after some objects, the listing
    fails with [Error::Message] carrying the first error's own text; the
    objects read before are discarded. *)
Theorem list_files_first_error (st : store) (metas : list ObjectMeta) (m : string)
    (rest : list (ObjectMeta + string)) :
  get_all_files st (map inl metas ++ inr m :: rest) = (st, Err (Message m)).
Proof.
  unfold get_all_files. f_equal. generalize (@nil FileInfo).
  induction metas as [|meta metas IH]; intros acc; simpl; [done | apply IH].
Qed.

(* ------------------------------------------------------------------ *)
(* Further properties: keys and names                                 *)
(* ------------------------------------------------------------------ *)

(** Extra: two non-empty file names without '/' never share an object
    key: on such names [ObjectPath::from] is injective, so collisions
    between distinct names need a '/' in one of them. *)
Theorem object_path_inj_slash_free (n1 n2 : string) :
  n1 <> "" -> n2 <> "" -> slash_free n1 = true -> slash_free n2 = true ->
  object_path n1 = object_path n2 -> n1 = n2.
Proof.
  intros H1 H2 S1 S2.
  rewrite (object_path_slash_free n1 H1 S1), (object_path_slash_free n2 H2 S2).
  apply path_part_inj.
Qed.

Lemma object_path_inj_slash_free_witness :
  "." <> "" /\ "%2E" <> "" /\ slash_free "." = true /\ slash_free "%2E" = true /\
  (object_path "." = object_path "%2E" -> "." = "%2E").
Proof.
  assert (H1 : "." <> "") by discriminate.
  assert (H2 : "%2E" <> "") by discriminate.
  assert (S1 : slash_free "." = true) by reflexivity.
  assert (S2 : slash_free "%2E" = true) by reflexivity.
  split; [exact H1|]. split; [exact H2|]. split; [exact S1|]. split; [exact S2|].
  exact (object_path_inj_slash_free "." "%2E" H1 H2 S1 S2).
Defined.

Lemma filename_slash_free (n : string) :
  n <> "" -> slash_free n = true -> filename n = Some n.
Proof.
  intros Hn Hs. unfold filename.
  destruct (String.eqb_spec n "") as [E|_]; [done|].
  by rewrite split_delim_slash_free.
Qed.

Lemma strip_last_slash_free (s : string) :
  slash_free s = true -> strip_last_slash s = s.
Proof.
  induction s as [|c s IH]; [done|]. intros [Hc Hs]%andb_prop.
  apply negb_true_iff in Hc. destruct s as [|c' s'].
  - simpl. by rewrite Hc.
  - change (strip_last_slash (String c (String c' s')))
      with (String c (strip_last_slash (String c' s'))).
    by rewrite IH.
Qed.

Lemma plain_chars_no_control (s : string) :
  plain_chars s = true -> no_control s = true.
Proof.
  induction s as [|c s IH]; simpl; [done|]. intros [Hc Hs]%andb_prop.
  rewrite IH by exact Hs. rewrite andb_true_r.
  apply negb_true_iff. apply negb_true_iff in Hc. revert Hc.
  unfold invalid_byte, is_ascii_control.
  destruct (Nat.ltb _ 32), (Nat.eqb _ 127); simpl; congruence.
Qed.

Lemma path_parse_plain (n : string) :
  n <> "" -> n <> "." -> n <> ".." -> plain_chars n = true ->
  path_parse n = Some n.
Proof.
  intros Hne Hd Hdd Hp.
  assert (Hs : slash_free n = true) by (by apply plain_chars_slash_free).
  assert (Hf : strip_first_slash n = n).
  { destruct n as [|c s]; [done|]. simpl in Hs |- *.
    apply andb_prop in Hs as [Hc _]. apply negb_true_iff in Hc. by rewrite Hc. }
  unfold path_parse. rewrite Hf.
  destruct (String.eqb_spec n "") as [E|_]; [done|].
  rewrite strip_last_slash_free, split_delim_slash_free by done. simpl.
  unfold segment_ok.
  destruct (String.eqb_spec n "") as [E|_]; [done|].
  destruct (String.eqb_spec n ".") as [E|_]; [done|].
  destruct (String.eqb_spec n "..") as [E|_]; [done|].
  by rewrite plain_chars_no_control.
Qed.

(** Extra: a non-empty name made only of characters outside [INVALID],
    other than "." and "..", is its own object key, and after uploading
    it with payload [b] into a bucket whose keys [Path::parse] all
    accepts, the listing succeeds and shows an entry with exactly that
    name and the payload's length. *)
Theorem plain_name_listed (put_err : string -> bytes -> option string)
    (parse_err_text : string -> string)
    (st : store) (file_name : string) (b : bytes) :
  file_name <> "" -> file_name <> "." -> file_name <> ".." ->
  plain_chars file_name = true ->
  put_err file_name b = None ->
  (forall k b', st !! k = Some b' -> is_Some (path_parse k)) ->
  object_path file_name = file_name /\
  let st' := fst (upload_file put_err st (named_parts [(file_name, b)])) in
  exists files,
    get_all_files st' (s3_listing parse_err_text st') = (st', Ok (FilesJson files)) /\
    In (mkFileInfo file_name (length b)) files.
Proof.
  intros Hne Hd Hdd Hp Hput Hparse.
  assert (Hs : slash_free file_name = true) by (by apply plain_chars_slash_free).
  assert (Hk : object_path file_name = file_name).
  { rewrite object_path_slash_free by done. unfold path_part.
    destruct (String.eqb_spec file_name ".") as [E|_]; [done|].
    destruct (String.eqb_spec file_name "..") as [E|_]; [done|].
    by apply percent_encode_plain. }
  split; [exact Hk|]. intros st'.
  assert (Hst : st' = <[file_name := b]> st).
  { subst st'. unfold upload_file. simpl. rewrite Hk, Hput. done. }
  assert (Hpp : path_parse file_name = Some file_name) by (by apply path_parse_plain).
  assert (Hall : forall k b', st' !! k = Some b' -> is_Some (path_parse k)).
  { intros k b' Hk'. rewrite Hst in Hk'.
    destruct (String.eqb_spec k file_name) as [->|Hkn].
    - rewrite Hpp. by eexists.
    - rewrite lookup_insert_ne in Hk' by congruence. by eapply Hparse. }
  eexists. split; [by apply get_all_files_parsed|].
  apply in_map_iff. exists (file_name, b). split.
  - unfold key_entry. simpl. rewrite Hpp. simpl. by rewrite filename_slash_free.
  - apply in_sorted_listing. rewrite Hst. apply lookup_insert_eq.
Qed.

Lemma plain_name_listed_witness :
  "report.txt" <> "" /\ "report.txt" <> "." /\ "report.txt" <> ".." /\
  plain_chars "report.txt" = true /\ no_put_err "report.txt" [Byte.x01] = None /\
  (forall k b', (∅ : store) !! k = Some b' -> is_Some (path_parse k)) /\
  (object_path "report.txt" = "report.txt" /\
   let st' := fst (upload_file no_put_err ∅ (named_parts [("report.txt", [Byte.x01])])) in
   exists files,
     get_all_files st' (s3_listing (fun k => k) st') = (st', Ok (FilesJson files)) /\
     In (mkFileInfo "report.txt" 1) files).
Proof.
  assert (H1 : "report.txt" <> "") by discriminate.
  assert (H2 : "report.txt" <> ".") by discriminate.
  assert (H3 : "report.txt" <> "..") by discriminate.
  assert (H4 : plain_chars "report.txt" = true) by reflexivity.
  assert (H5 : no_put_err "report.txt" [Byte.x01] = None) by reflexivity.
  assert (H6 : forall k b', (∅ : store) !! k = Some b' -> is_Some (path_parse k)).
  { intros k b' Hk. rewrite lookup_empty in Hk. discriminate. }
  repeat (split; [assumption|]).
  exact (plain_name_listed no_put_err (fun k => k) ∅ "report.txt" [Byte.x01]
           H1 H2 H3 H4 H5 H6).
Defined.

(* ------------------------------------------------------------------ *)
(* Further properties: configuration decoding                         *)
(* ------------------------------------------------------------------ *)


